(** * Checkpointing of nested computations (matscipy/checkpoint.py)

    A shallow embedding of the [Checkpoint] class: the region tracker
    ([checkpoint_id], [in_checkpointed_region]), the linear checkpoint id,
    and [load], [flush], [save], run against a model of the ASE database
    (a list of rows, each carrying the [checkpoint_id] key-value pair, the
    stored atoms and the [data] dictionary).

    Python exceptions are modelled by an error outcome; the object state at
    the point of the raise is kept, as Python mutates [self] in place. *)

From Stdlib Require Import ZArith Lia.
From stdpp Require Import base gmap strings list pretty.

Open Scope Z_scope.

Module Checkpoint.

(** ** Python values *)

(** An [ase.Atoms] object: its configuration (positions, abstracted to a
    list of integers) and the calculator attached to it, if any. *)
Record atoms := mkAtoms { at_positions : list Z; at_calc : option nat }.

(** [ase.Atoms()], the empty configuration. *)
Definition empty_atoms : atoms := mkAtoms [] None.

(** The values passed to [flush]/[save] and returned by [load]. *)
Inductive value :=
| VAtoms (a : atoms)
| VNone
| VInt (z : Z)
| VBool (b : bool)
| VStr (s : string).

Definition isinstance_atoms (v : value) : bool :=
  match v with VAtoms _ => true | _ => false end.

(** Python's [i == x] for an integer [i] ([True == 1] in Python). *)
Definition py_int_eq (i : Z) (x : value) : bool :=
  match x with
  | VInt k => Z.eqb i k
  | VBool b => Z.eqb i (if b then 1 else 0)
  | _ => false
  end.

(** The return value of [load]: a single value or a tuple. *)
Inductive retval :=
| RSingle (v : value)
| RTuple (vs : list value).

(** ** The database (ase.db) *)

(** A row: its row id, its [checkpoint_id] key-value pair, the stored
    atoms configuration and the [data] dictionary. *)
Record row := mkRow {
  row_id : nat;
  row_checkpoint_id : Z;
  row_positions : list Z;
  row_data : gmap string value
}.

(** The rows in insertion order, the next row id, and whether writes
    succeed (a failing store raises on delete and write). *)
Record store := mkStore {
  db_rows : list row;
  db_next_id : nat;
  db_writable : bool
}.

(** ** Object state and exceptions *)

Record state := mkState {
  checkpoint_id : list Z;
  in_checkpointed_region : bool;
  db : store
}.

Definition set_checkpoint_id (p : list Z) (st : state) : state :=
  mkState p (in_checkpointed_region st) (db st).
Definition set_in_region (b : bool) (st : state) : state :=
  mkState (checkpoint_id st) b (db st).
Definition set_db (d : store) (st : state) : state :=
  mkState (checkpoint_id st) (in_checkpointed_region st) d.

Inductive exn :=
| NoCheckpoint
| AssertionError
| IndexError
| KeyError
| TypeError
| RuntimeError (msg : string)
| StoreError.

Inductive outcome (A : Type) :=
| Ok (a : A)
| Raise (e : exn).
Arguments Ok {A} a.
Arguments Raise {A} e.

#[global] Instance exn_eq_dec : EqDecision exn.
Proof. solve_decision. Defined.

(** A method call: the state after it, and its result or exception. *)
Definition M (A : Type) := state -> state * outcome A.

Definition ret {A} (a : A) : M A := fun st => (st, Ok a).
Definition raise {A} (e : exn) : M A := fun st => (st, Raise e).
Definition bind {A B} (m : M A) (k : A -> M B) : M B :=
  fun st => match m st with
            | (st', Ok a) => k a st'
            | (st', Raise e) => (st', Raise e)
            end.
Definition get : M state := fun st => (st, Ok st).
Definition modify (f : state -> state) : M unit := fun st => (f st, Ok tt).

(** [try: m except e: h] *)
Definition catch {A} (e : exn) (m : M A) (h : M A) : M A :=
  fun st => match m st with
            | (st', Raise e') => if decide (e' = e) then h st' else (st', Raise e')
            | r => r
            end.

(** [assert c] *)
Definition py_assert (c : bool) : M unit :=
  if c then ret tt else raise AssertionError.

Notation "x <- m ;; k" := (bind m (fun x => k))
  (at level 100, m at next level, right associativity).
Notation "m ;;; k" := (bind m (fun _ => k)) (at level 100, right associativity).

(** ** Class constants *)

Definition value_prefix : string := "_values_".
Definition max_id : Z := 1000.
Definition atoms_index_key : string := "checkpoint_atoms_args_index".

(** ['{0}{1}'.format(self._value_prefix, i)] *)
Definition value_key (i : Z) : string := value_prefix +:+ pretty i.

(** [Checkpoint.__init__]: [checkpoint_id = [0]], not in a region. *)
Definition init (d : store) : state := mkState [0] false d.

(** ** Python list helpers *)

(** [l[-1]], [None] for IndexError. *)
Definition py_last (l : list Z) : option Z := last l.

(** [l[-1] = x] on a non-empty list. *)
Definition py_set_last (l : list Z) (x : Z) : list Z := removelast l ++ [x].

(** [l[:-1]] ([[]] for the empty list). *)
Definition py_drop_last (l : list Z) : list Z := removelast l.

(** ** Region tracker *)

(** [_increase_checkpoint_id] *)
Definition increase_checkpoint_id : M unit :=
  st <- get;;
  (if in_checkpointed_region st
   then modify (set_checkpoint_id (checkpoint_id st ++ [1]))
   else match py_last (checkpoint_id st) with
        | None => raise IndexError
        | Some c =>
            modify (set_checkpoint_id (py_set_last (checkpoint_id st) (c + 1)));;;
            py_assert (c + 1 <? max_id)
        end);;;
  modify (set_in_region true).

(** [_decrease_checkpoint_id] *)
Definition decrease_checkpoint_id : M unit :=
  st <- get;;
  (if negb (in_checkpointed_region st)
   then modify (set_checkpoint_id (py_drop_last (checkpoint_id st)));;;
        st' <- get;;
        py_assert (1 <=? Z.of_nat (length (checkpoint_id st')))%Z
   else ret tt);;;
  modify (set_in_region false);;;
  st' <- get;;
  match py_last (checkpoint_id st') with
  | None => raise IndexError
  | Some c => py_assert (1 <=? c)
  end.

(** ** Linear checkpoint id *)

(** [enumerate(l, start)] *)
Fixpoint enumerate_from {A} (n : Z) (l : list A) : list (Z * A) :=
  match l with
  | [] => []
  | x :: l' => (n, x) :: enumerate_from (n + 1) l'
  end.
Definition enumerate {A} (l : list A) : list (Z * A) := enumerate_from 0 l.

(** [reduce(f, l)] without initial value: TypeError ([None]) on []. *)
Definition reduce {A} (f : A -> A -> A) (l : list A) : option A :=
  match l with
  | [] => None
  | x :: xs => Some (fold_left f xs x)
  end.

(** The expression of [_mangled_checkpoint_id] on a path. *)
Definition mangle (p : list Z) : option Z :=
  reduce Z.add
    (map (fun '(i, c) => if Z.eqb i 0 then c else max_id ^ i * c)
       (enumerate p)).

(** [_mangled_checkpoint_id] *)
Definition mangled_checkpoint_id : M Z :=
  st <- get;;
  match mangle (checkpoint_id st) with
  | Some k => ret k
  | None => raise TypeError
  end.

(** ** Database operations *)

(** The rows carrying [checkpoint_id = k]. *)
Definition rows_at (k : Z) (d : store) : list row :=
  filter (fun r => row_checkpoint_id r = k) (db_rows d).

(** [db.get(checkpoint_id=k)]: KeyError when no row matches, an assertion
    failure when more than one does. *)
Definition db_get (k : Z) : M row :=
  st <- get;;
  match rows_at k (db st) with
  | [] => raise KeyError
  | [r] => ret r
  | _ => raise AssertionError
  end.

(** [del db[id]] *)
Definition db_delete (id : nat) : M unit :=
  st <- get;;
  let d := db st in
  if db_writable d
  then modify (set_db (mkStore (filter (fun r => row_id r <> id) (db_rows d))
                               (db_next_id d) (db_writable d)))
  else raise StoreError.

(** [db.write(atoms, checkpoint_id=k, data=data)]: appends a row;
    [None] is written as [ase.Atoms()], other non-Atoms values fail. *)
Definition written_positions (a : value) : option (list Z) :=
  match a with
  | VAtoms x => Some (at_positions x)
  | VNone => Some (at_positions empty_atoms)
  | _ => None
  end.

Definition db_write (a : value) (k : Z) (data : gmap string value) : M unit :=
  st <- get;;
  let d := db st in
  match db_writable d, written_positions a with
  | true, Some pos =>
      modify (set_db (mkStore (db_rows d ++ [mkRow (db_next_id d) k pos data])
                              (S (db_next_id d)) (db_writable d)))
  | _, _ => raise StoreError
  end.

(** [row.toatoms()]: the persisted copy, without a live calculator. *)
Definition toatoms (r : row) : atoms := mkAtoms (row_positions r) None.

(** ** Writing a checkpoint *)

(** [[isinstance(v, ase.Atoms) for v in args].index(True)] *)
Fixpoint atoms_index_from (i : Z) (args : list value) : option Z :=
  match args with
  | [] => None
  | v :: args' => if isinstance_atoms v then Some i else atoms_index_from (i + 1) args'
  end.

(** [dict(('{0}{1}'.format(prefix, i), v) for i, v in enumerate(args))] *)
Definition values_dict (args : list value) : gmap string value :=
  fold_left (fun d '(i, v) => <[value_key i := v]> d) (enumerate args) ∅.

(** The pure part of [_flush]: the atoms to write and the [data] dict,
    or the RuntimeError raised when no atoms object is found. *)
Definition flush_data (args : list value) (kwargs : gmap string value)
  : outcome (value * gmap string value) :=
  let data := values_dict args in
  let found :=
    match atoms_index_from 0 args with
    | Some atomsi =>
        match args !! Z.to_nat atomsi with
        | Some a => Ok (atomsi, a, delete (value_key atomsi) data)
        | None => Raise IndexError
        end
    | None =>
        match kwargs !! "atoms" with
        | Some a => Ok (-1, a, data)
        | None => Raise (RuntimeError "No atoms object provided in arguments.")
        end
    end in
  match found with
  | Ok (atomsi, a, data) =>
      let kwargs := delete "atoms" kwargs in
      let data := <[atoms_index_key := VInt atomsi]> data in
      Ok (a, kwargs ∪ data)   (* data.update(kwargs) *)
  | Raise e => Raise e
  end.

(** [_flush] *)
Definition _flush (args : list value) (kwargs : gmap string value) : M unit :=
  match flush_data args kwargs with
  | Raise e => raise e
  | Ok (a, data) =>
      k <- mangled_checkpoint_id;;
      catch KeyError (r <- db_get k;; db_delete (row_id r)) (ret tt);;;
      k' <- mangled_checkpoint_id;;
      db_write a k' data
  end.

(** [flush] *)
Definition flush (args : list value) (kwargs : gmap string value) : M unit :=
  modify (set_in_region false);;;
  _flush args kwargs.

(** [save] *)
Definition save (args : list value) (kwargs : gmap string value) : M unit :=
  decrease_checkpoint_id;;;
  _flush args kwargs.

(** ** Reading a checkpoint *)

(** The [while] loop of [load]; it runs at most once per key of [data]
    plus once at [atomsi], so [size data + 2] rounds always suffice. *)
Fixpoint load_loop (fuel : nat) (r : row) (ctx : option atoms)
    (atomsi : value) (i : Z) : list value :=
  match fuel with
  | O => []
  | S fuel' =>
      if py_int_eq i atomsi then
        let newatoms := toatoms r in
        let newatoms := match ctx with
                        | Some a => mkAtoms (at_positions newatoms) (at_calc a)
                        | None => newatoms
                        end in
        VAtoms newatoms :: load_loop fuel' r ctx atomsi (i + 1)
      else match row_data r !! value_key i with
           | Some v => v :: load_loop fuel' r ctx atomsi (i + 1)
           | None => []
           end
  end.

Definition load_fuel (r : row) : nat := size (row_data r) + 2.

(** [load(atoms)] *)
Definition load (ctx : option atoms) : M retval :=
  increase_checkpoint_id;;;
  k <- mangled_checkpoint_id;;
  r <- catch KeyError (db_get k) (raise NoCheckpoint);;
  match row_data r !! atoms_index_key with
  | None => raise KeyError
  | Some atomsi =>
      let retvals := load_loop (load_fuel r) r ctx atomsi 0 in
      decrease_checkpoint_id;;;
      match retvals with
      | [v] => ret (RSingle v)
      | _ => ret (RTuple retvals)
      end
  end.

(** ** The decorator [Checkpoint.__call__] *)

(** The loop of [decorated_func] picking the first [ase.Atoms] argument. *)
Definition first_atoms (args : list value) : option atoms :=
  fold_left (fun acc a => match acc, a with
                          | None, VAtoms x => Some x
                          | _, _ => acc
                          end) args None.

(** The Python value of the local [atoms]: the atoms object or [None]. *)
Definition py_atoms_arg (o : option atoms) : value :=
  match o with Some a => VAtoms a | None => VNone end.

(** [atoms=atoms, checkpoint_func_name=checkpoint_func_name] *)
Definition call_kwargs (o : option atoms) (fname : string) : gmap string value :=
  <["checkpoint_func_name" := VStr fname]> (<["atoms" := py_atoms_arg o]> ∅).

(** [decorated_func] for [func] with [checkpoint_func_name = fname]; [func]
    runs in the checkpoint's state, as it may itself use the checkpoint. *)
Definition decorated_func (fname : string)
    (func : list value -> gmap string value -> M retval)
    (args : list value) (kwargs : gmap string value) : M retval :=
  let atoms := first_atoms args in
  catch NoCheckpoint (load atoms)
    (retvals <- func args kwargs;;
     (match retvals with
      | RTuple vs => save vs (call_kwargs atoms fname)
      | RSingle v => save [v] (call_kwargs atoms fname)
      end);;;
     ret retvals).

(** ** Mixed-radix reading of the linear id *)

(** Horner form of the path tail: [r0 + max_id * (r1 + max_id * ...)]. *)
Definition horner (r : list Z) : Z := fold_right (fun c acc => c + max_id * acc) 0 r.

(** Paths whose elements are in [1, max_id). *)
Definition valid_path (p : list Z) : Prop := Forall (fun c => 0 < c < max_id) p.

(** The store after a successful [_flush] at linear id [k]: the row found
    by [db.get] (if any) deleted by its id, the new row appended. *)
Definition flush_store (k : Z) (pos : list Z) (data : gmap string value)
    (d : store) : store :=
  let rows := match rows_at k d with
              | [r] => filter (fun r' => row_id r' <> row_id r) (db_rows d)
              | _ => db_rows d
              end in
  mkStore (rows ++ [mkRow (db_next_id d) k pos data]) (S (db_next_id d))
    (db_writable d).

(** [n] region entries at one depth, each after the pending-close flag
    has been cleared (as [flush] clears it), so that every [Enter]
    increments the last path element in place. *)
Fixpoint enter_repeatedly (n : nat) : M unit :=
  match n with
  | O => ret tt
  | S n' => enter_repeatedly n';;; modify (set_in_region false);;; increase_checkpoint_id
  end.

(** Row ids below the next id to be assigned (ase's autoincrement). *)
Definition ids_fresh (d : store) : Prop :=
  Forall (fun r => (row_id r < db_next_id d)%nat) (db_rows d).

(** The values a stored record is expected to give back: the written
    values in order, the payload at ordinal [ai] replaced by its persisted
    copy (the stored positions [pos], with the calculator of [ctx]). *)
Definition reattach (ctx : option atoms) (pos : list Z) : atoms :=
  mkAtoms pos (match ctx with Some c => at_calc c | None => None end).

Fixpoint restored_from (ctx : option atoms) (pos : list Z) (ai i : Z)
    (l : list value) : list value :=
  match l with
  | [] => []
  | v :: l' =>
      (if Z.eqb i ai then VAtoms (reattach ctx pos) else v)
        :: restored_from ctx pos ai (i + 1) l'
  end.

(** The payload ordinal [_flush] records: the first positional atoms, or
    -1 when the payload came as the ["atoms"] keyword. *)
Definition payload_ordinal (args : list value) : Z :=
  match atoms_index_from 0 args with Some ai => ai | None => -1 end.

Definition restored (ctx : option atoms) (pos : list Z) (args : list value)
  : list value :=
  restored_from ctx pos (payload_ordinal args) 0 args.

(** The positional part of the [data] dict [_flush] builds. *)
Definition positional_data (args : list value) : gmap string value :=
  match atoms_index_from 0 args with
  | Some ai => delete (value_key ai) (values_dict args)
  | None => values_dict args
  end.

(** The values [decorated_func] passes to [save] for a return value. *)
Definition retvals_list (rv : retval) : list value :=
  match rv with RTuple vs => vs | RSingle v => [v] end.

(** A database as [_flush] keeps it: row ids distinct and below the next
    id, and at most one row per linear id. *)
Definition store_ok (d : store) : Prop :=
  ids_fresh d /\
  (forall r1 r2, r1 ∈ db_rows d -> r2 ∈ db_rows d -> row_id r1 = row_id r2 -> r1 = r2) /\
  forall k, (length (rows_at k d) <= 1)%nat.

(** [n] completed inner checkpointed calls, each an [Enter] then an [Exit]. *)
Fixpoint inner_calls (n : nat) : M unit :=
  match n with
  | O => ret tt
  | S n' => inner_calls n';;; increase_checkpoint_id;;; decrease_checkpoint_id
  end.

(** Sample inputs: an empty writable database, a configuration with a
    calculator attached, and three values with the configuration second. *)
Definition sample_store : store := mkStore [] 0 true.
Definition sample_atoms : atoms := mkAtoms [7] (Some 3%nat).
Definition sample_ctx : atoms := mkAtoms [] (Some 5%nat).
Definition sample_args : list value := [VInt 4; VAtoms sample_atoms; VInt 5].

(** The [data] dict [_flush] writes for [args] and [kw] (empty on error). *)
Definition flushed_data (args : list value) (kw : gmap string value) : gmap string value :=
  match flush_data args kw with Ok (_, data) => data | Raise _ => ∅ end.

(** The payload given only as the ["atoms"] keyword. *)
Definition sample_kw : gmap string value := <["atoms" := VAtoms sample_atoms]> ∅.

(** The database after the sample values were saved at linear id 1. *)
Definition sample_saved : store :=
  flush_store 1 [7] (flushed_data sample_args ∅) sample_store.

(** The database after two flushes at linear id 1, the second of
    [[VInt 8; VAtoms sample_atoms]]. *)
Definition sample_flushed_twice : store :=
  flush_store 1 [7] (flushed_data [VInt 8; VAtoms sample_atoms] ∅) sample_saved.

(** The record written by [save] with no positional value and the payload
    as keyword, and the database holding it at linear id 1. *)
Definition sample_kw_row : row := mkRow 0 1 [7] (flushed_data [] sample_kw).
Definition sample_kw_store : store :=
  flush_store 1 [7] (flushed_data [] sample_kw) sample_store.

(** A database with two rows at linear id 1. *)
Definition sample_dup_store : store :=
  mkStore [mkRow 0 1 [] ∅; mkRow 1 1 [] ∅] 2 true.

(** A function decorated as [f] whose body makes one checkpointed call of
    [g] (returning [1]) and returns [(42,)]; the database after [g] saved
    at [[1; 1]] (linear id 1001), and after [f] then saved at [[1]]. *)
Definition sample_outer_func (args : list value) (kwargs : gmap string value) : M retval :=
  decorated_func "g" (fun _ _ => ret (RSingle (VInt 1))) [VAtoms sample_atoms] ∅;;;
  ret (RTuple [VInt 42]).
Definition sample_inner_store : store :=
  flush_store 1001 [7] (flushed_data [VInt 1] (call_kwargs (Some sample_atoms) "g"))
    sample_store.
Definition sample_nested_store : store :=
  flush_store 1 [7] (flushed_data [VInt 42] (call_kwargs (Some sample_atoms) "f"))
    sample_inner_store.

(** How [load] returns a list of values. *)
Definition as_ret (vs : list value) : retval :=
  match vs with [v] => RSingle v | _ => RTuple vs end.


Lemma fold_left_add (l : list Z) (acc : Z) :
  fold_left Z.add l acc = acc + fold_right Z.add 0 l.
Proof.
  revert acc; induction l as [|x l IH]; intros acc; simpl; [lia|].
  rewrite IH. lia.
Qed.

Lemma enumerate_from_weighted_sum (n : Z) (r : list Z) :
  1 <= n ->
  fold_right Z.add 0
    (map (fun '(i, c) => if Z.eqb i 0 then c else max_id ^ i * c)
       (enumerate_from n r)) = max_id ^ n * horner r.
Proof.
  revert n; induction r as [|c r IH]; intros n Hn; simpl; [lia|].
  rewrite IH by lia.
  destruct (Z.eqb_spec n 0) as [->|_]; [lia|].
  rewrite Z.pow_add_r by lia. unfold max_id. simpl. nia.
Qed.

Lemma mangle_cons (c : Z) (r : list Z) :
  mangle (c :: r) = Some (c + max_id * horner r).
Proof.
  unfold mangle, enumerate. simpl.
  rewrite fold_left_add, enumerate_from_weighted_sum by lia.
  rewrite Z.pow_1_r. reflexivity.
Qed.

Lemma horner_nonneg (r : list Z) : valid_path r -> 0 <= horner r.
Proof.
  induction 1 as [|c r Hc _ IH]; simpl; unfold max_id in *; lia.
Qed.

Lemma horner_inj (r1 r2 : list Z) :
  valid_path r1 -> valid_path r2 -> horner r1 = horner r2 -> r1 = r2.
Proof.
  intros H1; revert r2; induction H1 as [|c1 r1 Hc1 Hr1 IH];
    intros r2 H2 Heq; destruct H2 as [|c2 r2 Hc2 Hr2]; simpl in Heq; try done.
  - pose proof (horner_nonneg r2 Hr2). unfold max_id in *. lia.
  - pose proof (horner_nonneg r1 Hr1). unfold max_id in *. lia.
  - pose proof (horner_nonneg r1 Hr1). pose proof (horner_nonneg r2 Hr2).
    unfold max_id in *.
    assert (c1 = c2) as -> by lia.
    assert (horner r1 = horner r2) as Hh by lia.
    f_equal. by apply IH.
Qed.

(** ** Properties of the monad, the tracker and the store *)

Lemma bind_ok {A B} (m : M A) (k : A -> M B) st st' a :
  m st = (st', Ok a) -> bind m k st = k a st'.
Proof. unfold bind. by intros ->. Qed.

Lemma bind_raise {A B} (m : M A) (k : A -> M B) st st' e :
  m st = (st', Raise e) -> bind m k st = (st', Raise e).
Proof. unfold bind. by intros ->. Qed.

Lemma removelast_snoc (p : list Z) (c : Z) : removelast (p ++ [c]) = p.
Proof.
  induction p as [|x p IH]; [done|].
  simpl. rewrite IH. destruct p; done.
Qed.

Lemma increase_nested (p : list Z) (d : store) :
  increase_checkpoint_id (mkState p true d) = (mkState (p ++ [1]) true d, Ok tt).
Proof. reflexivity. Qed.

Lemma increase_sibling (p : list Z) (c : Z) (d : store) :
  c + 1 < max_id ->
  increase_checkpoint_id (mkState (p ++ [c]) false d)
  = (mkState (p ++ [c + 1]) true d, Ok tt).
Proof.
  intros Hc. unfold increase_checkpoint_id, bind, get, modify; simpl.
  unfold py_last, py_set_last. rewrite last_snoc, removelast_snoc.
  unfold py_assert. apply Z.ltb_lt in Hc. rewrite Hc. reflexivity.
Qed.

Lemma increase_sibling_overflow (p : list Z) (c : Z) (d : store) :
  max_id <= c + 1 ->
  increase_checkpoint_id (mkState (p ++ [c]) false d)
  = (mkState (p ++ [c + 1]) false d, Raise AssertionError).
Proof.
  intros Hc. unfold increase_checkpoint_id, bind, get, modify; simpl.
  unfold py_last, py_set_last. rewrite last_snoc, removelast_snoc.
  unfold py_assert. replace (c + 1 <? max_id) with false; [reflexivity|].
  symmetry. apply Z.ltb_ge. lia.
Qed.

Lemma decrease_open (p : list Z) (c : Z) (d : store) :
  1 <= c ->
  decrease_checkpoint_id (mkState (p ++ [c]) true d)
  = (mkState (p ++ [c]) false d, Ok tt).
Proof.
  intros Hc. unfold decrease_checkpoint_id, bind, get, modify, ret; simpl.
  unfold py_last. rewrite last_snoc. unfold py_assert.
  apply Z.leb_le in Hc. rewrite Hc. reflexivity.
Qed.

Lemma decrease_closed (p : list Z) (c x : Z) (d : store) :
  1 <= c ->
  decrease_checkpoint_id (mkState (p ++ [c; x]) false d)
  = (mkState (p ++ [c]) false d, Ok tt).
Proof.
  intros Hc. unfold decrease_checkpoint_id, bind, get, modify, ret; simpl.
  unfold py_drop_last.
  replace (p ++ [c; x]) with ((p ++ [c]) ++ [x]) by (by rewrite <- app_assoc).
  rewrite removelast_snoc. unfold py_assert.
  replace (1 <=? Z.of_nat (length (p ++ [c]))) with true
    by (symmetry; apply Z.leb_le; rewrite length_app; simpl; lia).
  unfold ret, set_checkpoint_id, set_in_region; simpl.
  unfold py_last. rewrite last_snoc.
  apply Z.leb_le in Hc. rewrite Hc. reflexivity.
Qed.

Lemma filter_nil_of {A} (P : A -> Prop) `{!forall x, Decision (P x)} (l : list A) :
  (forall x, x ∈ l -> ~ P x) -> filter P l = [].
Proof.
  intros Hall. destruct (filter P l) as [|y l'] eqn:E; [done|].
  assert (Hy : y ∈ filter P l) by (rewrite E; left).
  apply list_elem_of_filter in Hy as [HP Hin]. by destruct (Hall y Hin).
Qed.

Lemma db_get_none (k : Z) (st : state) :
  rows_at k (db st) = [] -> db_get k st = (st, Raise KeyError).
Proof. intros H. unfold db_get, bind, get. simpl. by rewrite H. Qed.

Lemma db_get_one (k : Z) (r : row) (st : state) :
  rows_at k (db st) = [r] -> db_get k st = (st, Ok r).
Proof. intros H. unfold db_get, bind, get. simpl. by rewrite H. Qed.

(** Evaluate a monadic run, rewriting with the equations in context. *)
Ltac run_with_hyps :=
  repeat (cbn; match goal with
               | H : ?x = _ |- context [?x] => progress rewrite H
               | |- context [decide (?e = ?e)] => rewrite (decide_True (P := e = e)) by done
               end).

Lemma filter_ext_in {A} (P Q : A -> Prop) `{!forall x, Decision (P x)}
    `{!forall x, Decision (Q x)} (l : list A) :
  (forall x, x ∈ l -> P x <-> Q x) -> filter P l = filter Q l.
Proof.
  induction l as [|y l IH]; intros Hiff; [done|].
  rewrite !filter_cons.
  assert (Hy : P y <-> Q y) by (apply Hiff; left).
  rewrite IH by (intros x Hx; apply Hiff; by right).
  destruct (decide (P y)), (decide (Q y)); naive_solver.
Qed.

Lemma _flush_spec (args : list value) (kw : gmap string value) (st : state)
    (a : value) (data : gmap string value) (k : Z) (pos : list Z) :
  flush_data args kw = Ok (a, data) ->
  mangle (checkpoint_id st) = Some k ->
  written_positions a = Some pos ->
  db_writable (db st) = true ->
  (length (rows_at k (db st)) <= 1)%nat ->
  _flush args kw st = (set_db (flush_store k pos data (db st)) st, Ok tt).
Proof.
  intros Hfd Hk Hpos Hw Hlen. destruct st as [p b d]; simpl in *.
  unfold _flush. rewrite Hfd.
  unfold mangled_checkpoint_id, catch, db_get, db_delete, db_write,
    bind, get, modify, ret, raise; simpl.
  rewrite Hk. unfold flush_store.
  destruct (rows_at k d) as [|r [|r2 l]] eqn:Er; simpl in Hlen; try lia.
  - run_with_hyps. reflexivity.
  - run_with_hyps. reflexivity.
Qed.

Lemma _flush_ok_inv (args : list value) (kw : gmap string value) (st st' : state) :
  _flush args kw st = (st', Ok tt) ->
  exists a data k pos,
    flush_data args kw = Ok (a, data) /\ mangle (checkpoint_id st) = Some k /\
    written_positions a = Some pos /\ db_writable (db st) = true /\
    (length (rows_at k (db st)) <= 1)%nat /\
    st' = set_db (flush_store k pos data (db st)) st.
Proof.
  destruct st as [p b d]. unfold _flush.
  destruct (flush_data args kw) as [[a data]|e] eqn:Hfd; [|discriminate].
  unfold mangled_checkpoint_id, catch, db_get, db_delete, db_write,
    bind, get, modify, ret, raise.
  destruct (mangle p) as [k|] eqn:Hk; run_with_hyps; [|discriminate].
  destruct (rows_at k d) as [|r [|r2 l]] eqn:Er; run_with_hyps; try discriminate;
  destruct (db_writable d) eqn:Hw; run_with_hyps; try discriminate;
  destruct (written_positions a) as [pos|] eqn:Hpos; run_with_hyps; try discriminate;
  intros H; injection H as <-; exists a, data, k, pos;
    (repeat split; try done; [rewrite Er; simpl; lia|]);
    unfold flush_store; rewrite Er, Hw; reflexivity.
Qed.

Lemma rows_at_flush_store_same (k : Z) (pos : list Z) (data : gmap string value)
    (d : store) :
  (length (rows_at k d) <= 1)%nat ->
  rows_at k (flush_store k pos data d) = [mkRow (db_next_id d) k pos data].
Proof.
  intros Hlen. unfold flush_store. cbn [db_rows].
  destruct (rows_at k d) as [|r [|r2 l]] eqn:Er; simpl in Hlen; try lia.
  - unfold rows_at in *. cbn [db_rows]. rewrite filter_app, Er.
    rewrite filter_cons_True by done. reflexivity.
  - unfold rows_at in *. cbn [db_rows]. rewrite filter_app, list_filter_filter.
    rewrite filter_nil_of.
    + simpl. rewrite filter_cons_True by done. reflexivity.
    + intros x Hx [Hkx Hid]. apply Hid.
      assert (Hin : x ∈ filter (fun r => row_checkpoint_id r = k) (db_rows d))
        by (apply list_elem_of_filter; done).
      rewrite Er in Hin. apply list_elem_of_singleton in Hin. by subst.
Qed.

Lemma rows_at_flush_store_keep (k k' : Z) (pos : list Z)
    (data : gmap string value) (d : store) :
  k' <> k ->
  (forall r x, r ∈ rows_at k d -> x ∈ rows_at k' d -> row_id x <> row_id r) ->
  rows_at k' (flush_store k pos data d) = rows_at k' d.
Proof.
  intros Hne Hids. unfold flush_store. cbn [db_rows].
  assert (Hnew : filter (fun r => row_checkpoint_id r = k')
                   [mkRow (db_next_id d) k pos data] = []).
  { rewrite filter_cons_False by (simpl; congruence). done. }
  destruct (rows_at k d) as [|r [|r2 l]] eqn:Er;
    unfold rows_at; cbn [db_rows]; rewrite filter_app, Hnew, app_nil_r;
    try done.
  rewrite list_filter_filter. apply filter_ext_in.
  intros x Hx. split; [by intros [? _]|]. intros Hkx. split; [done|].
  apply (Hids r x); [left|]. unfold rows_at. by apply list_elem_of_filter.
Qed.

Lemma increase_db (st st' : state) (o : outcome unit) :
  increase_checkpoint_id st = (st', o) -> db st' = db st.
Proof.
  destruct st as [p b d].
  unfold increase_checkpoint_id, bind, get, modify, py_assert, ret, raise. cbn.
  repeat case_match; intros Hrun; simplify_eq; reflexivity.
Qed.

Lemma increase_not_nocheckpoint (st st' : state) :
  increase_checkpoint_id st <> (st', Raise NoCheckpoint).
Proof.
  destruct st as [p b d].
  unfold increase_checkpoint_id, bind, get, modify, py_assert, ret, raise. cbn.
  repeat case_match; intros Hrun; simplify_eq.
Qed.

Lemma decrease_db (st st' : state) (o : outcome unit) :
  decrease_checkpoint_id st = (st', o) -> db st' = db st.
Proof.
  destruct st as [p b d].
  unfold decrease_checkpoint_id, bind, get, modify, py_assert, ret, raise. cbn.
  repeat case_match; intros Hrun; simplify_eq; reflexivity.
Qed.

Lemma decrease_not_nocheckpoint (st st' : state) :
  decrease_checkpoint_id st <> (st', Raise NoCheckpoint).
Proof.
  destruct st as [p b d].
  unfold decrease_checkpoint_id, bind, get, modify, py_assert, ret, raise. cbn.
  repeat case_match; intros Hrun; simplify_eq.
Qed.

Lemma decrease_ok (st st' : state) :
  decrease_checkpoint_id st = (st', Ok tt) ->
  in_checkpointed_region st' = false /\ db st' = db st.
Proof.
  destruct st as [p b d].
  unfold decrease_checkpoint_id, bind, get, modify, py_assert, ret, raise. cbn.
  repeat case_match; intros Hrun; simplify_eq; done.
Qed.

(** After a successful [Enter] from a path of non-negative counters, the
    region is open and the last counter is at least 1. *)
Lemma increase_ok_shape (st st1 : state) :
  Forall (fun c => 0 <= c) (checkpoint_id st) ->
  increase_checkpoint_id st = (st1, Ok tt) ->
  in_checkpointed_region st1 = true /\ db st1 = db st /\
  exists p c, checkpoint_id st1 = p ++ [c] /\ 1 <= c.
Proof.
  destruct st as [p b d]. cbn. intros Hnn.
  unfold increase_checkpoint_id, bind, get, modify, py_assert, ret, raise. cbn.
  destruct b; cbn.
  - intros Hrun; simplify_eq. split; [done|split; [done|]]. exists p, 1. split; [done|lia].
  - unfold py_last. destruct (last p) as [c|] eqn:Hl; cbn; [|discriminate].
    destruct (c + 1 <? max_id); cbn; intros Hrun; simplify_eq.
    split; [done|split; [done|]].
    exists (removelast p), (c + 1). split; [done|].
    apply last_Some in Hl as [l' ->]. rewrite Forall_app, Forall_singleton in Hnn.
    lia.
Qed.

Lemma load_miss (ctx : option atoms) (st st1 : state) (k : Z) :
  increase_checkpoint_id st = (st1, Ok tt) ->
  mangle (checkpoint_id st1) = Some k -> rows_at k (db st1) = [] ->
  load ctx st = (st1, Raise NoCheckpoint).
Proof.
  intros Hinc Hk Hr. unfold load. rewrite (bind_ok _ _ _ _ _ Hinc).
  unfold mangled_checkpoint_id, catch, db_get, bind, get, ret, raise.
  run_with_hyps. reflexivity.
Qed.

Lemma load_nocheckpoint_inv (ctx : option atoms) (st st1 : state) :
  load ctx st = (st1, Raise NoCheckpoint) ->
  increase_checkpoint_id st = (st1, Ok tt) /\
  exists k, mangle (checkpoint_id st1) = Some k /\ rows_at k (db st1) = [].
Proof.
  unfold load. destruct (increase_checkpoint_id st) as [st' [[]|e]] eqn:Hinc.
  2:{ rewrite (bind_raise _ _ _ _ _ Hinc). intros Hrun; simplify_eq.
      by destruct (increase_not_nocheckpoint st st1). }
  rewrite (bind_ok _ _ _ _ _ Hinc). cbv beta.
  unfold mangled_checkpoint_id, catch, db_get, bind, get, ret, raise.
  cbn - [decrease_checkpoint_id load_loop].
  destruct (mangle (checkpoint_id st')) as [k|] eqn:Hk;
    cbn - [decrease_checkpoint_id load_loop]; [|intros Hrun; simplify_eq].
  destruct (rows_at k (db st')) as [|r [|r2 l]] eqn:Hr;
    cbn - [decrease_checkpoint_id load_loop].
  - rewrite decide_True by done. intros Hrun; simplify_eq. split; [done|]. by exists k.
  - destruct (row_data r !! atoms_index_key); [|intros Hrun; simplify_eq].
    destruct (decrease_checkpoint_id st') as [st'' [[]|e]] eqn:Hdec;
      cbn - [decrease_checkpoint_id load_loop].
    + destruct (load_loop (load_fuel r) r ctx v 0) as [|? [|? ?]]; intros Hrun; simplify_eq.
    + intros Hrun; simplify_eq. by destruct (decrease_not_nocheckpoint st' st1).
  - intros Hrun; simplify_eq.
Qed.

Lemma flush_data_no_atoms (args : list value) (kw : gmap string value) :
  Forall (fun v => isinstance_atoms v = false) args -> kw !! "atoms" = None ->
  flush_data args kw = Raise (RuntimeError "No atoms object provided in arguments.").
Proof.
  intros Hargs Hkw. unfold flush_data.
  assert (Hidx : forall i, atoms_index_from i args = None).
  { induction Hargs as [|v args' Hv _ IH]; intros i; [done|]. cbn. by rewrite Hv. }
  by rewrite Hidx, Hkw.
Qed.

(** ** Decoding a stored record *)

Lemma value_key_inj (i j : Z) : value_key i = value_key j -> i = j.
Proof. unfold value_key, value_prefix. cbn. intros H. simplify_eq. by apply (inj pretty). Qed.

Lemma value_key_ne_index (i : Z) : value_key i <> atoms_index_key.
Proof. unfold value_key, value_prefix, atoms_index_key. cbn. discriminate. Qed.

Lemma value_key_ne_atoms (i : Z) : value_key i <> "atoms".
Proof. unfold value_key, value_prefix. cbn. discriminate. Qed.

Lemma values_from_lookup_below (n k : Z) (l : list value) (m : gmap string value) :
  k < n ->
  fold_left (fun d '(i, v) => <[value_key i := v]> d) (enumerate_from n l) m !! value_key k
  = m !! value_key k.
Proof.
  revert n m; induction l as [|v l IH]; intros n m Hk; [done|]. cbn.
  rewrite IH by lia. apply lookup_insert_ne. intros ?%value_key_inj. lia.
Qed.

Lemma values_from_lookup (n : Z) (j : nat) (l : list value) (m : gmap string value) :
  fold_left (fun d '(i, v) => <[value_key i := v]> d) (enumerate_from n l) m
    !! value_key (n + Z.of_nat j)
  = match l !! j with Some v => Some v | None => m !! value_key (n + Z.of_nat j) end.
Proof.
  revert n j m; induction l as [|v l IH]; intros n j m; [done|]. cbn.
  destruct j as [|j].
  - rewrite Z.add_0_r, values_from_lookup_below by lia. apply lookup_insert_eq.
  - replace (n + Z.of_nat (S j)) with (n + 1 + Z.of_nat j) by lia.
    rewrite IH. cbn. destruct (l !! j); [done|].
    apply lookup_insert_ne. intros ?%value_key_inj. lia.
Qed.

Lemma values_from_keys (n : Z) (l : list value) (m : gmap string value) s x :
  fold_left (fun d '(i, v) => <[value_key i := v]> d) (enumerate_from n l) m !! s = Some x ->
  m !! s = Some x \/ exists i, s = value_key i.
Proof.
  revert n m; induction l as [|v l IH]; intros n m; cbn; [by left|].
  intros [Hs|[i ->]]%IH; [|by right; exists i].
  apply lookup_insert_Some in Hs as [[<- _]|[_ Hs]]; [by right; exists n|by left].
Qed.

Lemma values_from_size (n : Z) (l : list value) (m : gmap string value) :
  (forall j, n <= j -> m !! value_key j = None) ->
  size (fold_left (fun d '(i, v) => <[value_key i := v]> d) (enumerate_from n l) m)
  = (size m + length l)%nat.
Proof.
  revert n m; induction l as [|v l IH]; intros n m Hm; cbn; [lia|].
  rewrite IH.
  - rewrite map_size_insert_None by (apply Hm; lia). lia.
  - intros j Hj. rewrite lookup_insert_ne by (intros ?%value_key_inj; lia). apply Hm. lia.
Qed.

Lemma values_dict_lookup (args : list value) (j : nat) :
  values_dict args !! value_key (Z.of_nat j) = args !! j.
Proof.
  unfold values_dict, enumerate.
  rewrite <- (Z.add_0_l (Z.of_nat j)), values_from_lookup.
  rewrite lookup_empty. by case_match.
Qed.

Lemma values_dict_lookup_neg (args : list value) (i : Z) :
  i < 0 -> values_dict args !! value_key i = None.
Proof.
  intros Hi. unfold values_dict, enumerate.
  rewrite values_from_lookup_below by lia. apply lookup_empty.
Qed.

Lemma values_dict_keys (args : list value) s x :
  values_dict args !! s = Some x -> exists i, s = value_key i.
Proof.
  unfold values_dict. intros [Hs|Hs]%values_from_keys; [|done].
  by rewrite lookup_empty in Hs.
Qed.

Lemma values_dict_size (args : list value) : size (values_dict args) = length args.
Proof.
  unfold values_dict, enumerate. rewrite values_from_size.
  - rewrite map_size_empty. lia.
  - intros. apply lookup_empty.
Qed.

Lemma load_loop_restored (fuel : nat) (r : row) (ctx : option atoms) (ai i : Z)
    (l : list value) :
  (length l < fuel)%nat ->
  (forall (j : nat) v, l !! j = Some v -> i + Z.of_nat j <> ai ->
     row_data r !! value_key (i + Z.of_nat j) = Some v) ->
  row_data r !! value_key (i + Z.of_nat (length l)) = None ->
  ai <> i + Z.of_nat (length l) ->
  load_loop fuel r ctx (VInt ai) i = restored_from ctx (row_positions r) ai i l.
Proof.
  revert fuel i; induction l as [|v l IH]; intros [|fuel] i Hfuel Hdata Hend Hai;
    cbn in Hfuel; try lia.
  - cbn. rewrite Z.add_0_r in Hend, Hai.
    destruct (Z.eqb_spec i ai); [lia|]. by rewrite Hend.
  - cbn. rewrite (IH fuel (i + 1)).
    + destruct (Z.eqb_spec i ai) as [->|Hne].
      * f_equal. f_equal. unfold reattach, toatoms. by destruct ctx.
      * specialize (Hdata 0%nat v eq_refl). rewrite Z.add_0_r in Hdata.
        by rewrite Hdata by done.
    + lia.
    + intros j w Hj Hne. replace (i + 1 + Z.of_nat j) with (i + Z.of_nat (S j)) by lia.
      apply Hdata; [done|lia].
    + replace (i + 1 + Z.of_nat (length l)) with (i + Z.of_nat (length (v :: l))) by (cbn; lia).
      done.
    + cbn in Hai. lia.
Qed.

Lemma atoms_index_from_range (i ai : Z) (args : list value) :
  atoms_index_from i args = Some ai -> i <= ai < i + Z.of_nat (length args).
Proof.
  revert i; induction args as [|v args IH]; intros i; cbn; [done|].
  destruct (isinstance_atoms v); [intros [= <-]; lia|].
  intros ?%IH. lia.
Qed.

Lemma flush_data_shape (args : list value) (kw : gmap string value) a data :
  flush_data args kw = Ok (a, data) ->
  data = delete "atoms" kw
         ∪ <[atoms_index_key := VInt (payload_ordinal args)]> (positional_data args).
Proof.
  unfold flush_data, payload_ordinal, positional_data.
  destruct (atoms_index_from 0 args) as [ai|].
  - destruct (args !! Z.to_nat ai); by intros [= _ <-].
  - destruct (kw !! "atoms"); by intros [= _ <-].
Qed.

Lemma positional_data_lookup (args : list value) (j : nat) :
  Z.of_nat j <> payload_ordinal args ->
  positional_data args !! value_key (Z.of_nat j) = args !! j.
Proof.
  unfold positional_data, payload_ordinal. intros Hj.
  destruct (atoms_index_from 0 args) as [ai|]; [|apply values_dict_lookup].
  rewrite lookup_delete_ne by (intros ?%value_key_inj; lia). apply values_dict_lookup.
Qed.

Lemma positional_data_keys (args : list value) s x :
  positional_data args !! s = Some x -> exists i, s = value_key i.
Proof.
  unfold positional_data. case_match; [|apply values_dict_keys].
  intros [_ Hs]%lookup_delete_Some. by eapply values_dict_keys.
Qed.

Lemma positional_data_size (args : list value) :
  (length args <= S (size (positional_data args)))%nat.
Proof.
  unfold positional_data. rewrite <- values_dict_size.
  case_match; [|lia]. rewrite map_size_delete. case_match; cbn; lia.
Qed.

(** Reading back what [_flush] wrote: the index entry, and the loop of
    [load] yields the written values with the payload's persisted copy,
    provided no extra keyword collides with the keys [_flush] uses. *)
Lemma flush_data_decode (args : list value) (kw : gmap string value) a
    (r : row) (ctx : option atoms) :
  (forall i, kw !! value_key i = None) -> kw !! atoms_index_key = None ->
  flush_data args kw = Ok (a, row_data r) ->
  row_data r !! atoms_index_key = Some (VInt (payload_ordinal args)) /\
  load_loop (load_fuel r) r ctx (VInt (payload_ordinal args)) 0
  = restored ctx (row_positions r) args.
Proof.
  intros Hkw Hidx Hfd. apply flush_data_shape in Hfd.
  set (base := <[atoms_index_key := VInt (payload_ordinal args)]> (positional_data args))
    in Hfd.
  assert (Hvk : forall i, row_data r !! value_key i = positional_data args !! value_key i).
  { intros i. rewrite Hfd, lookup_union_r.
    - unfold base. rewrite lookup_insert_ne; [done|]. intros H. by apply (value_key_ne_index i).
    - rewrite lookup_delete_ne by (intros H; by apply (value_key_ne_atoms i)). apply Hkw. }
  split.
  { rewrite Hfd, lookup_union_r; [unfold base; apply lookup_insert_eq|].
    rewrite lookup_delete_ne by (unfold atoms_index_key; discriminate). done. }
  unfold restored. apply load_loop_restored.
  - unfold load_fuel.
    assert (Hsub : positional_data args ⊆ row_data r).
    { apply map_subseteq_spec. intros s x Hs.
      destruct (positional_data_keys args s x Hs) as [i ->]. by rewrite Hvk. }
    apply map_subseteq_size in Hsub. pose proof (positional_data_size args). lia.
  - intros j v Hj Hne. rewrite Z.add_0_l, Hvk, positional_data_lookup; [done|lia].
  - rewrite Z.add_0_l, Hvk. unfold positional_data.
    assert (Hnone : values_dict args !! value_key (Z.of_nat (length args)) = None).
    { rewrite values_dict_lookup. by apply lookup_ge_None. }
    case_match; [|done]. by rewrite lookup_delete_None; right.
  - unfold payload_ordinal. destruct (atoms_index_from 0 args) as [ai|] eqn:Hai; [|lia].
    apply atoms_index_from_range in Hai. lia.
Qed.

Lemma load_hit (ctx : option atoms) (st st1 st2 : state) (k : Z) (r : row) (ai : value) :
  increase_checkpoint_id st = (st1, Ok tt) ->
  mangle (checkpoint_id st1) = Some k -> rows_at k (db st1) = [r] ->
  row_data r !! atoms_index_key = Some ai ->
  decrease_checkpoint_id st1 = (st2, Ok tt) ->
  load ctx st = (st2, Ok (as_ret (load_loop (load_fuel r) r ctx ai 0))).
Proof.
  intros Hinc Hk Hr Hai Hdec. unfold load. rewrite (bind_ok _ _ _ _ _ Hinc).
  unfold mangled_checkpoint_id, catch, db_get, bind at 1 2 3 4, get, ret, raise.
  cbn - [decrease_checkpoint_id load_loop]. rewrite Hk. cbn - [decrease_checkpoint_id load_loop].
  rewrite Hr. cbn - [decrease_checkpoint_id load_loop]. rewrite Hai.
  rewrite (bind_ok _ _ _ _ _ Hdec).
  destruct (load_loop (load_fuel r) r ctx ai 0) as [|v [|w vs]]; reflexivity.
Qed.

Lemma atoms_index_from_none (i : Z) (args : list value) :
  Forall (fun v => isinstance_atoms v = false) args -> atoms_index_from i args = None.
Proof.
  intros Hargs. revert i.
  induction Hargs as [|v args' Hv _ IH]; intros i; [done|]. cbn. by rewrite Hv.
Qed.

Lemma restored_from_no_hit (ctx : option atoms) (pos : list Z) (ai i : Z) (l : list value) :
  ai < i -> restored_from ctx pos ai i l = l.
Proof.
  revert i; induction l as [|v l IH]; intros i Hi; [done|]. cbn.
  destruct (Z.eqb_spec i ai); [lia|]. rewrite IH by lia. done.
Qed.

(** A failing [_flush] leaves the tracker alone and writes no row. *)
Lemma _flush_raise_inv (args : list value) (kw : gmap string value)
    (st st' : state) (e : exn) :
  _flush args kw st = (st', Raise e) ->
  checkpoint_id st' = checkpoint_id st /\
  in_checkpointed_region st' = in_checkpointed_region st /\
  (forall r, r ∈ db_rows (db st') -> r ∈ db_rows (db st)).
Proof.
  destruct st as [p b d]. unfold _flush.
  destruct (flush_data args kw) as [[a data]|e'];
    [|unfold raise; intros Hrun; simplify_eq; repeat split; auto].
  unfold mangled_checkpoint_id, catch, db_get, db_delete, db_write,
    bind, get, modify, ret, raise. cbn.
  destruct (mangle p) as [k|] eqn:Hk; cbn; [|intros Hrun; simplify_eq; repeat split; auto].
  destruct (rows_at k d) as [|r [|r2 l]] eqn:Hr; cbn.
  - rewrite decide_True by done. cbn.
    repeat case_match; intros Hrun; simplify_eq; repeat split; auto.
  - destruct (db_writable d) eqn:Hw; cbn;
      [|rewrite decide_False by done; intros Hrun; simplify_eq; repeat split; auto].
    run_with_hyps. destruct (written_positions a); cbn; intros Hrun; simplify_eq.
    split; [done|split; [done|]]. cbn.
    intros x Hx. by apply list_elem_of_filter in Hx as [_ Hx].
  - rewrite decide_False by done. intros Hrun; simplify_eq; repeat split; auto.
Qed.

Lemma enter_repeatedly_S (n : nat) :
  enter_repeatedly (S n)
  = (enter_repeatedly n;;; modify (set_in_region false);;; increase_checkpoint_id).
Proof. reflexivity. Qed.

Lemma force_open_enter (p : list Z) (c : Z) (b : bool) (d : store) :
  c + 1 < max_id ->
  (modify (set_in_region false);;; increase_checkpoint_id) (mkState (p ++ [c]) b d)
  = (mkState (p ++ [c + 1]) true d, Ok tt).
Proof.
  intros Hc.
  rewrite (bind_ok _ _ _ (set_in_region false (mkState (p ++ [c]) b d)) tt)
    by reflexivity.
  apply increase_sibling, Hc.
Qed.

Lemma force_open_enter_overflow (p : list Z) (c : Z) (b : bool) (d : store) :
  max_id <= c + 1 ->
  (modify (set_in_region false);;; increase_checkpoint_id) (mkState (p ++ [c]) b d)
  = (mkState (p ++ [c + 1]) false d, Raise AssertionError).
Proof.
  intros Hc.
  rewrite (bind_ok _ _ _ (set_in_region false (mkState (p ++ [c]) b d)) tt)
    by reflexivity.
  apply increase_sibling_overflow, Hc.
Qed.

Lemma enter_repeatedly_ok (p : list Z) (b : bool) (d : store) (n : nat) :
  (n < 999)%nat ->
  enter_repeatedly (S n) (mkState (p ++ [0]) b d)
  = (mkState (p ++ [Z.of_nat (S n)]) true d, Ok tt).
Proof.
  induction n as [|n IH]; intros Hn.
  - rewrite enter_repeatedly_S, (bind_ok _ _ _ _ tt (eq_refl : enter_repeatedly 0 _ = _)).
    rewrite force_open_enter by (unfold max_id; lia). reflexivity.
  - rewrite enter_repeatedly_S, (bind_ok _ _ _ _ _ (IH ltac:(lia))).
    rewrite force_open_enter by (unfold max_id; lia).
    by replace (Z.of_nat (S n) + 1) with (Z.of_nat (S (S n))) by lia.
Qed.

(** ** The decorator's keyword arguments *)

Lemma atoms_index_from_some (i ai : Z) (args : list value) :
  atoms_index_from i args = Some ai ->
  exists x, args !! Z.to_nat (ai - i) = Some (VAtoms x).
Proof.
  revert i; induction args as [|v args IH]; intros i; cbn; [done|].
  destruct v; cbn; try (intros Hai; pose proof (atoms_index_from_range _ _ _ Hai);
    destruct (IH _ Hai) as [x Hx]; exists x;
    replace (Z.to_nat (ai - i)) with (S (Z.to_nat (ai - (i + 1)))) by lia; exact Hx).
  intros [= <-]. exists a. by rewrite Z.sub_diag.
Qed.

Lemma call_kwargs_value_key (o : option atoms) (fname : string) (i : Z) :
  call_kwargs o fname !! value_key i = None.
Proof.
  unfold call_kwargs.
  rewrite lookup_insert_ne by (unfold value_key, value_prefix; cbn; discriminate).
  rewrite lookup_insert_ne by (intros H; by apply (value_key_ne_atoms i)).
  apply lookup_empty.
Qed.

Lemma call_kwargs_index (o : option atoms) (fname : string) :
  call_kwargs o fname !! atoms_index_key = None.
Proof. reflexivity. Qed.

(** ** The store invariant *)

Lemma flush_store_elem (k : Z) (pos : list Z) (data : gmap string value) (d : store) r :
  r ∈ db_rows (flush_store k pos data d) ->
  r ∈ db_rows d \/ r = mkRow (db_next_id d) k pos data.
Proof.
  unfold flush_store. cbn [db_rows]. intros [Hr|Hr]%elem_of_app.
  - left. case_match; try done. case_match; try done.
    by apply list_elem_of_filter in Hr as [_ Hr].
  - right. by apply list_elem_of_singleton.
Qed.

Lemma store_ok_flush_store (k : Z) (pos : list Z) (data : gmap string value) (d : store) :
  store_ok d -> store_ok (flush_store k pos data d).
Proof.
  intros (Hfresh & Huniq & Hone). unfold ids_fresh in Hfresh. rewrite Forall_forall in Hfresh.
  split; [|split].
  - unfold ids_fresh. rewrite Forall_forall. intros r [Hr| ->]%flush_store_elem; cbn.
    + specialize (Hfresh r Hr). lia.
    + lia.
  - intros r1 r2 [H1| ->]%flush_store_elem [H2| ->]%flush_store_elem Hid; cbn in Hid.
    + by apply Huniq.
    + specialize (Hfresh r1 H1). lia.
    + specialize (Hfresh r2 H2). lia.
    + done.
  - intros k'. destruct (decide (k' = k)) as [->|Hne].
    + rewrite rows_at_flush_store_same by apply Hone. done.
    + rewrite rows_at_flush_store_keep; [apply Hone|done|].
      intros r x Hr Hx Hid.
      apply list_elem_of_filter in Hr as [Hrk Hr], Hx as [Hxk Hx].
      assert (x = r) as -> by (by apply Huniq). congruence.
Qed.

(** ** Nested calls *)

Lemma inner_calls_ok (p : list Z) (c : Z) (d : store) (n : nat) :
  1 <= c -> (n < 999)%nat ->
  inner_calls (S n) (mkState (p ++ [c]) true d)
  = (mkState ((p ++ [c]) ++ [Z.of_nat (S n)]) false d, Ok tt).
Proof.
  intros Hc. induction n as [|n IH]; intros Hn.
  - cbn [inner_calls]. rewrite (bind_ok _ _ _ (mkState (p ++ [c]) true d) tt) by reflexivity.
    rewrite (bind_ok _ _ _ _ _ (increase_nested (p ++ [c]) d)).
    by rewrite (decrease_open (p ++ [c]) 1 d) by lia.
  - cbn [inner_calls]. cbn [inner_calls] in IH.
    rewrite (bind_ok _ _ _ _ _ (IH ltac:(lia))).
    rewrite (bind_ok _ _ _ _ _ (increase_sibling (p ++ [c]) (Z.of_nat (S n)) d
      ltac:(unfold max_id; lia))).
    rewrite (decrease_open (p ++ [c])) by lia.
    by replace (Z.of_nat (S n) + 1) with (Z.of_nat (S (S n))) by lia.
Qed.

(** ** Sibling keys and reads *)






(** ** Claims *)

(** C2: for distinct region paths whose elements are positive and below
    [max_id], [_mangled_checkpoint_id] yields distinct linear ids, also when
    the two paths have different lengths. *)
Theorem linear_key_injective (p1 p2 : list Z) :
  valid_path p1 -> valid_path p2 -> p1 <> p2 -> mangle p1 <> mangle p2.
Proof.
  intros H1 H2 Hne Heq. apply Hne.
  destruct H1 as [|c1 r1 Hc1 Hr1], H2 as [|c2 r2 Hc2 Hr2]; try done.
  rewrite !mangle_cons in Heq. injection Heq as Heq.
  pose proof (horner_nonneg r1 Hr1). pose proof (horner_nonneg r2 Hr2).
  unfold max_id in *.
  assert (c1 = c2) as -> by lia.
  f_equal. apply horner_inj; [done|done|lia].
Qed.

Lemma linear_key_injective_witness :
  (valid_path [1; 2] /\ valid_path [1] /\ [1; 2] <> [1]) /\ mangle [1; 2] <> mangle [1].
Proof.
  assert (Hv : valid_path [1; 2] /\ valid_path [1] /\ [1; 2] <> [1]).
  { unfold valid_path, max_id. repeat split; [repeat constructor; lia ..|done]. }
  split; [exact Hv|].
  destruct Hv as (Ha & Hb & Hc). exact (linear_key_injective [1; 2] [1] Ha Hb Hc).
Defined.

(** C1: from an open outer region at path [[1]], an inner Enter pushes
    [[1; 1]]; the inner save writes at the linear id of [[1; 1]]; the outer
    save then pops back to [[1]] and writes at the linear id of [[1]], the
    id a save without the nested call writes at, while the inner record
    stays stored under its own id. *)
Theorem nested_collapse (d : store) (args_in args_out : list value)
    (kw_in kw_out : gmap string value) (a_in a_out : value)
    (data_in data_out : gmap string value) (pos_in pos_out : list Z) :
  db_writable d = true -> ids_fresh d ->
  rows_at 1001 d = [] -> (length (rows_at 1 d) <= 1)%nat ->
  flush_data args_in kw_in = Ok (a_in, data_in) ->
  written_positions a_in = Some pos_in ->
  flush_data args_out kw_out = Ok (a_out, data_out) ->
  written_positions a_out = Some pos_out ->
  let d1 := flush_store 1001 pos_in data_in d in
  let d2 := flush_store 1 pos_out data_out d1 in
  mangle [1; 1] = Some 1001 /\ mangle [1] = Some 1 /\
  (increase_checkpoint_id;;; save args_in kw_in) (mkState [1] true d)
    = (mkState [1; 1] false d1, Ok tt) /\
  rows_at 1001 d1 = [mkRow (db_next_id d) 1001 pos_in data_in] /\
  save args_out kw_out (mkState [1; 1] false d1) = (mkState [1] false d2, Ok tt) /\
  rows_at 1 d2 = [mkRow (S (db_next_id d)) 1 pos_out data_out] /\
  save args_out kw_out (mkState [1] true d)
    = (mkState [1] false (flush_store 1 pos_out data_out d), Ok tt) /\
  rows_at 1001 d2 = [mkRow (db_next_id d) 1001 pos_in data_in].
Proof.
  intros Hw Hfresh H1001 H1 Hfd_in Hpos_in Hfd_out Hpos_out d1 d2.
  assert (Hd1_1 : rows_at 1 d1 = rows_at 1 d).
  { apply rows_at_flush_store_keep; [lia|]. intros r x Hr. rewrite H1001 in Hr. by apply elem_of_nil in Hr. }
  assert (Hd1_1001 : rows_at 1001 d1 = [mkRow (db_next_id d) 1001 pos_in data_in]).
  { apply rows_at_flush_store_same. rewrite H1001; simpl; lia. }
  split; [reflexivity|]. split; [reflexivity|].
  split.
  { unfold save.
    rewrite (bind_ok _ _ _ _ _ (increase_nested [1] d)). cbv beta.
    rewrite (bind_ok _ _ _ _ _ (decrease_open [1] 1 d ltac:(lia))).
    rewrite (_flush_spec args_in kw_in _ a_in data_in 1001 pos_in); try done.
    cbn. rewrite H1001. simpl. lia. }
  split; [exact Hd1_1001|].
  split.
  { unfold save.
    rewrite (bind_ok _ _ _ _ _ (decrease_closed [] 1 1 d1 ltac:(lia))).
    rewrite (_flush_spec args_out kw_out _ a_out data_out 1 pos_out); try done.
    cbn [db]. by rewrite Hd1_1. }
  split.
  { unfold d2. rewrite rows_at_flush_store_same by (rewrite Hd1_1; lia). done. }
  split.
  { unfold save.
    rewrite (bind_ok _ _ _ _ _ (decrease_open [] 1 d ltac:(lia))).
    rewrite (_flush_spec args_out kw_out _ a_out data_out 1 pos_out); done. }
  unfold d2. rewrite rows_at_flush_store_keep; [exact Hd1_1001|lia|].
  intros r x Hr Hx. rewrite Hd1_1001 in Hx. apply list_elem_of_singleton in Hx as ->.
  rewrite Hd1_1 in Hr. unfold rows_at in Hr. apply list_elem_of_filter in Hr as [_ Hr].
  unfold ids_fresh in Hfresh. rewrite Forall_forall in Hfresh.
  specialize (Hfresh r Hr). simpl. lia.
Qed.

(** C5: from the initial tracker, two sequential non-nested checkpointed
    calls (a load that misses, then the closing save) write their records
    at the linear ids of [[1]] and then [[2]]; the second call increments the
    last path element instead of pushing a nested level. *)
Theorem sibling_increment (d : store) (ctx1 ctx2 : option atoms)
    (args1 args2 : list value) (kw1 kw2 : gmap string value) (a1 a2 : value)
    (data1 data2 : gmap string value) (pos1 pos2 : list Z) :
  db_writable d = true -> rows_at 1 d = [] -> rows_at 2 d = [] ->
  flush_data args1 kw1 = Ok (a1, data1) -> written_positions a1 = Some pos1 ->
  flush_data args2 kw2 = Ok (a2, data2) -> written_positions a2 = Some pos2 ->
  let d1 := flush_store 1 pos1 data1 d in
  let d2 := flush_store 2 pos2 data2 d1 in
  mangle [1] = Some 1 /\ mangle [2] = Some 2 /\
  load ctx1 (init d) = (mkState [1] true d, Raise NoCheckpoint) /\
  save args1 kw1 (mkState [1] true d) = (mkState [1] false d1, Ok tt) /\
  load ctx2 (mkState [1] false d1) = (mkState [2] true d1, Raise NoCheckpoint) /\
  save args2 kw2 (mkState [2] true d1) = (mkState [2] false d2, Ok tt) /\
  rows_at 1 d2 = [mkRow (db_next_id d) 1 pos1 data1] /\
  rows_at 2 d2 = [mkRow (S (db_next_id d)) 2 pos2 data2].
Proof.
  intros Hw H1 H2 Hfd1 Hpos1 Hfd2 Hpos2 d1 d2.
  assert (Hd1_2 : rows_at 2 d1 = []).
  { unfold d1. rewrite rows_at_flush_store_keep; [done|lia|].
    intros r x _ Hx. rewrite H2 in Hx. by apply elem_of_nil in Hx. }
  assert (Hd1_1 : rows_at 1 d1 = [mkRow (db_next_id d) 1 pos1 data1]).
  { apply rows_at_flush_store_same. rewrite H1. simpl. lia. }
  split; [reflexivity|]. split; [reflexivity|].
  split; [apply load_miss with 1; [apply (increase_sibling [] 0 d); unfold max_id; lia|done|done]|].
  split.
  { unfold save. rewrite (bind_ok _ _ _ _ _ (decrease_open [] 1 d ltac:(lia))).
    rewrite (_flush_spec args1 kw1 _ a1 data1 1 pos1); try done.
    cbn [db]. rewrite H1. simpl. lia. }
  split; [apply load_miss with 2; [apply (increase_sibling [] 1 d1); unfold max_id; lia|done|done]|].
  split.
  { unfold save. rewrite (bind_ok _ _ _ _ _ (decrease_open [] 2 d1 ltac:(lia))).
    rewrite (_flush_spec args2 kw2 _ a2 data2 2 pos2); [done|done|done|done| |].
    - unfold d1. cbn. by rewrite Hw.
    - cbn [db]. rewrite Hd1_2. simpl. lia. }
  split.
  - unfold d2. rewrite rows_at_flush_store_keep; [done|lia|].
    intros r x Hr _. rewrite Hd1_2 in Hr. by apply elem_of_nil in Hr.
  - unfold d2. rewrite rows_at_flush_store_same by (rewrite Hd1_2; simpl; lia). done.
Qed.

(** C6: when the lookup of [load] finds no record at the linear id its
    [Enter] lands on, [load] raises [NoCheckpoint] and leaves the region
    open: the state is the one [Enter] produced (flag set, database
    unchanged), and a following [flush] or [save] writes at that linear id. *)
Theorem load_miss_keeps_region_open (st st1 : state) (ctx : option atoms) (k : Z) :
  Forall (fun c => 0 <= c) (checkpoint_id st) ->
  increase_checkpoint_id st = (st1, Ok tt) ->
  mangle (checkpoint_id st1) = Some k -> rows_at k (db st) = [] ->
  load ctx st = (st1, Raise NoCheckpoint) /\
  in_checkpointed_region st1 = true /\ db st1 = db st /\
  forall (args : list value) (kw : gmap string value) (a : value)
         (data : gmap string value) (pos : list Z),
    flush_data args kw = Ok (a, data) -> written_positions a = Some pos ->
    db_writable (db st) = true ->
    flush args kw st1
      = (mkState (checkpoint_id st1) false (flush_store k pos data (db st)), Ok tt) /\
    save args kw st1
      = (mkState (checkpoint_id st1) false (flush_store k pos data (db st)), Ok tt).
Proof.
  intros Hnn Hinc Hk Hr.
  destruct (increase_ok_shape st st1 Hnn Hinc) as (Hopen & Hdb & p & c & Hp & Hc).
  split; [apply (load_miss ctx st st1 k Hinc Hk); by rewrite Hdb|].
  split; [done|]. split; [done|].
  intros args kw a data pos Hfd Hpos Hw.
  destruct st1 as [p1 b1 d1]; cbn in *; subst p1 b1 d1.
  split.
  - unfold flush, bind, modify. cbn -[_flush].
    rewrite (_flush_spec args kw _ a data k pos); try done.
    cbn. rewrite Hr. simpl. lia.
  - unfold save. rewrite (bind_ok _ _ _ _ _ (decrease_open p c (db st) Hc)).
    rewrite (_flush_spec args kw _ a data k pos); try done.
    cbn. rewrite Hr. simpl. lia.
Qed.

(** C7: with the pending-close flag cleared before each call, [Enter]
    repeated at one depth from a last counter of 0 succeeds the first
    [max_id - 1] times and fails its assertion on the [max_id]-th call. *)
Theorem sibling_overflow (p : list Z) (b : bool) (d : store) :
  (forall n : nat, (1 <= n < 1000)%nat ->
     enter_repeatedly n (mkState (p ++ [0]) b d)
     = (mkState (p ++ [Z.of_nat n]) true d, Ok tt)) /\
  enter_repeatedly 1000 (mkState (p ++ [0]) b d)
  = (mkState (p ++ [max_id]) false d, Raise AssertionError).
Proof.
  split.
  - intros [|n] Hn; [lia|]. apply enter_repeatedly_ok. lia.
  - rewrite enter_repeatedly_S, (bind_ok _ _ _ _ _ (enter_repeatedly_ok p b d 998 ltac:(lia))).
    rewrite force_open_enter_overflow by (unfold max_id; lia). reflexivity.
Qed.

(** C8: a write whose positional values hold no [ase.Atoms] and whose
    keyword arguments have no ["atoms"] entry fails, and the database is
    left exactly as it was (nothing deleted, nothing written). *)
Theorem missing_payload_no_write (args : list value) (kw : gmap string value)
    (st : state) :
  Forall (fun v => isinstance_atoms v = false) args -> kw !! "atoms" = None ->
  flush args kw st
    = (set_in_region false st, Raise (RuntimeError "No atoms object provided in arguments.")) /\
  exists st' e, save args kw st = (st', Raise e) /\ db st' = db st.
Proof.
  intros Hargs Hkw. pose proof (flush_data_no_atoms args kw Hargs Hkw) as Hfd.
  split.
  - unfold flush, _flush. rewrite Hfd. reflexivity.
  - unfold save. destruct (decrease_checkpoint_id st) as [st1 [[]|e]] eqn:Hdec.
    + rewrite (bind_ok _ _ _ _ _ Hdec). unfold _flush. rewrite Hfd.
      eexists _, _. split; [reflexivity|]. by apply (decrease_db st st1 (Ok tt)).
    + rewrite (bind_raise _ _ _ _ _ Hdec).
      eexists _, _. split; [reflexivity|]. by apply (decrease_db st st1 (Raise e)).
Qed.

(** C9: [save] runs [Exit] before touching the database: when the write
    then fails (no payload, or the store raises), the tracker stays in its
    post-[Exit] state (region closed, any popped level not restored) and no
    row has been added. *)
Theorem save_exit_before_write (args : list value) (kw : gmap string value)
    (st st1 st2 : state) (e : exn) :
  decrease_checkpoint_id st = (st1, Ok tt) ->
  save args kw st = (st2, Raise e) ->
  checkpoint_id st2 = checkpoint_id st1 /\ in_checkpointed_region st2 = false /\
  (forall r, r ∈ db_rows (db st2) -> r ∈ db_rows (db st)).
Proof.
  intros Hdec Hsave. unfold save in Hsave. rewrite (bind_ok _ _ _ _ _ Hdec) in Hsave.
  destruct (_flush_raise_inv args kw st1 st2 e Hsave) as (Hp & Hb & Hrows).
  destruct (decrease_ok st st1 Hdec) as [Hclosed Hdb].
  split; [done|]. split; [by rewrite Hb|]. rewrite <- Hdb. exact Hrows.
Qed.



(** C4: [flush] clears the pending-close flag and keeps the path; a
    second [flush] at the same path deletes the first record and writes a
    new one, so exactly one record (the second's) remains at the linear
    id, and a load of that id returns the second write's values only. *)
Theorem flush_overwrites (p : list Z) (c : Z) (b : bool) (d : store) (st' : state)
    (ctx : option atoms) (xs ys : list value) (kwx kwy : gmap string value)
    (ax ay : value) (datax datay : gmap string value) (posx posy : list Z) (k : Z) :
  1 <= c ->
  flush_data xs kwx = Ok (ax, datax) -> written_positions ax = Some posx ->
  flush_data ys kwy = Ok (ay, datay) -> written_positions ay = Some posy ->
  (forall i, kwy !! value_key i = None) -> kwy !! atoms_index_key = None ->
  mangle (p ++ [c]) = Some k -> db_writable d = true ->
  (length (rows_at k d) <= 1)%nat ->
  let d1 := flush_store k posx datax d in
  let d2 := flush_store k posy datay d1 in
  increase_checkpoint_id st' = (mkState (p ++ [c]) true d2, Ok tt) ->
  flush xs kwx (mkState (p ++ [c]) b d) = (mkState (p ++ [c]) false d1, Ok tt) /\
  flush ys kwy (mkState (p ++ [c]) false d1) = (mkState (p ++ [c]) false d2, Ok tt) /\
  rows_at k d2 = [mkRow (S (db_next_id d)) k posy datay] /\
  load ctx st' = (mkState (p ++ [c]) false d2, Ok (as_ret (restored ctx posy ys))).
Proof.
  intros Hc Hfx Hpx Hfy Hpy Hkw Hidx Hk Hw Hlen d1 d2 Hinc.
  assert (Hd1 : rows_at k d1 = [mkRow (db_next_id d) k posx datax])
    by (by apply rows_at_flush_store_same).
  assert (Hd2 : rows_at k d2 = [mkRow (S (db_next_id d)) k posy datay]).
  { unfold d2. rewrite rows_at_flush_store_same by (rewrite Hd1; cbn; lia). done. }
  split.
  { unfold flush, bind, modify. cbn -[_flush].
    by rewrite (_flush_spec xs kwx _ ax datax k posx). }
  split.
  { unfold flush, bind, modify. cbn -[_flush].
    rewrite (_flush_spec ys kwy _ ay datay k posy); [done|done|done|done| |].
    - unfold d1. cbn. by rewrite Hw.
    - assert (Hl1 : (length (rows_at k d1) <= 1)%nat) by (rewrite Hd1; cbn; lia).
      exact Hl1. }
  split; [done|].
  set (r := mkRow (S (db_next_id d)) k posy datay).
  destruct (flush_data_decode ys kwy ay r ctx Hkw Hidx Hfy) as [Hai Hloop].
  erewrite (load_hit ctx st' _ _ k r); [|exact Hinc|done|exact Hd2|exact Hai|].
  - by rewrite Hloop.
  - by apply decrease_open.
Qed.

(** C10: a record whose payload came only as the ["atoms"] keyword
    (recorded ordinal -1) loads as its positional values alone, in order,
    without the payload; with no positional values, [load] returns the
    empty tuple. *)
Theorem keyword_payload_not_returned (ctx : option atoms) (st st1 st2 : state) (k : Z)
    (r : row) (args : list value) (kw : gmap string value) (a : value) :
  Forall (fun v => isinstance_atoms v = false) args ->
  (forall i, kw !! value_key i = None) -> kw !! atoms_index_key = None ->
  flush_data args kw = Ok (a, row_data r) ->
  increase_checkpoint_id st = (st1, Ok tt) ->
  mangle (checkpoint_id st1) = Some k -> rows_at k (db st1) = [r] ->
  decrease_checkpoint_id st1 = (st2, Ok tt) ->
  row_data r !! atoms_index_key = Some (VInt (-1)) /\
  load ctx st = (st2, Ok (as_ret args)) /\
  (args = [] -> load ctx st = (st2, Ok (RTuple []))).
Proof.
  intros Hargs Hkw Hidx Hfd Hinc Hk Hr Hdec.
  assert (Hpo : payload_ordinal args = -1)
    by (unfold payload_ordinal; by rewrite atoms_index_from_none).
  destruct (flush_data_decode args kw a r ctx Hkw Hidx Hfd) as [Hai Hloop].
  rewrite Hpo in Hai, Hloop.
  assert (Hload : load ctx st = (st2, Ok (as_ret args))).
  { rewrite (load_hit ctx st st1 st2 k r (VInt (-1))) by done.
    rewrite Hloop. unfold restored. rewrite Hpo, restored_from_no_hit by lia. done. }
  split; [done|]. split; [done|]. intros ->. exact Hload.
Qed.

Ltac witness_side :=
  first [ reflexivity | lia | (cbn; lia) | (vm_compute; reflexivity)
        | (vm_compute; lia) | (repeat constructor; lia) | (intros; apply lookup_empty) ].

(** C1 instance: an inner save of the sample values, then an outer save of
    one integer with the payload as keyword, on an empty database. *)
Lemma nested_collapse_witness :
  save [VInt 9] sample_kw (mkState [1; 1] false
      (flush_store 1001 [7] (flushed_data sample_args ∅) sample_store))
  = (mkState [1] false
       (flush_store 1 [7] (flushed_data [VInt 9] sample_kw)
          (flush_store 1001 [7] (flushed_data sample_args ∅) sample_store)), Ok tt).
Proof.
  refine (proj1 (proj2 (proj2 (proj2 (proj2 (nested_collapse sample_store sample_args
    [VInt 9] ∅ sample_kw (VAtoms sample_atoms) (VAtoms sample_atoms)
    (flushed_data sample_args ∅) (flushed_data [VInt 9] sample_kw) [7] [7]
    _ _ _ _ _ _ _ _)))))); witness_side.
Defined.


(** C4 instance: the sample values flushed, then [[VInt 8; VAtoms sample_atoms]]. *)
Lemma flush_overwrites_witness :
  load (Some sample_ctx) (init sample_flushed_twice)
  = (mkState [1] false sample_flushed_twice,
     Ok (RTuple [VInt 8; VAtoms (mkAtoms [7] (Some 5%nat))])).
Proof.
  refine (proj2 (proj2 (proj2 (flush_overwrites [] 1 true sample_store
    (init sample_flushed_twice) (Some sample_ctx) sample_args [VInt 8; VAtoms sample_atoms]
    ∅ ∅ (VAtoms sample_atoms) (VAtoms sample_atoms) (flushed_data sample_args ∅)
    (flushed_data [VInt 8; VAtoms sample_atoms] ∅) [7] [7] 1
    _ _ _ _ _ _ _ _ _ _ _)))); witness_side.
Defined.

(** C5 instance: the sample values, then one integer with the payload as keyword. *)
Lemma sibling_increment_witness :
  rows_at 2 (flush_store 2 [7] (flushed_data [VInt 9] sample_kw) sample_saved)
  = [mkRow 1 2 [7] (flushed_data [VInt 9] sample_kw)].
Proof.
  refine (proj2 (proj2 (proj2 (proj2 (proj2 (proj2 (proj2 (sibling_increment sample_store
    None None sample_args [VInt 9] ∅ sample_kw (VAtoms sample_atoms) (VAtoms sample_atoms)
    (flushed_data sample_args ∅) (flushed_data [VInt 9] sample_kw) [7] [7]
    _ _ _ _ _ _ _)))))))); witness_side.
Defined.

(** C6 instance: the first [load] on an empty database. *)
Lemma load_miss_keeps_region_open_witness :
  load None (init sample_store) = (mkState [1] true sample_store, Raise NoCheckpoint).
Proof.
  refine (proj1 (load_miss_keeps_region_open (init sample_store)
    (mkState [1] true sample_store) None 1 _ _ _ _)); witness_side.
Defined.

(** C8 instance: two plain values and no keyword. *)
Lemma missing_payload_no_write_witness :
  flush [VInt 1; VStr "x"] ∅ (init sample_store)
  = (set_in_region false (init sample_store),
     Raise (RuntimeError "No atoms object provided in arguments.")).
Proof.
  refine (proj1 (missing_payload_no_write [VInt 1; VStr "x"] ∅ (init sample_store) _ _));
    witness_side.
Defined.

(** C9 instance: a nested save with no payload, after the level was closed. *)
Lemma save_exit_before_write_witness :
  checkpoint_id (mkState [1] false sample_store) = [1] /\
  in_checkpointed_region (mkState [1] false sample_store) = false.
Proof.
  destruct (save_exit_before_write [VInt 1] ∅ (mkState [1; 1] false sample_store)
    (mkState [1] false sample_store) (mkState [1] false sample_store)
    (RuntimeError "No atoms object provided in arguments.") ltac:(witness_side) ltac:(witness_side))
    as (Hp & Hb & _).
  split; [exact Hp|exact Hb].
Defined.

(** C10 instance: no positional value, the payload as keyword. *)
Lemma keyword_payload_not_returned_witness :
  load (Some sample_ctx) (init sample_kw_store)
  = (mkState [1] false sample_kw_store, Ok (RTuple [])).
Proof.
  refine (proj2 (proj2 (keyword_payload_not_returned (Some sample_ctx) (init sample_kw_store)
    (mkState [1] true sample_kw_store) (mkState [1] false sample_kw_store) 1 sample_kw_row
    [] sample_kw (VAtoms sample_atoms) _ _ _ _ _ _ _ _)) eq_refl); witness_side.
  all: intros i; unfold sample_kw; rewrite lookup_insert_ne; [apply lookup_empty|].
  all: intros H; by apply (value_key_ne_atoms i).
Defined.

(** ** Further properties of the code *)

(** The linear id of a path is the base-[max_id] number whose digits,
    least significant first, are the path's elements; the empty path has
    none ([reduce] of an empty sequence raises TypeError). *)
Theorem linear_id_digits :
  mangle [] = None /\ forall (c : Z) (r : list Z), mangle (c :: r) = Some (horner (c :: r)).
Proof. split; [reflexivity|]. intros c r. by rewrite mangle_cons. Qed.

(** The keyword arguments the decorator passes to [save] always carry a
    payload (its first atoms argument, or None), so encoding never fails:
    no RuntimeError, and the payload is one [db.write] accepts. *)
Theorem decorator_save_encodes (o : option atoms) (fname : string) (vs : list value) :
  exists a data pos,
    flush_data vs (call_kwargs o fname) = Ok (a, data) /\ written_positions a = Some pos.
Proof.
  unfold flush_data.
  destruct (atoms_index_from 0 vs) as [ai|] eqn:Hai.
  - destruct (atoms_index_from_some 0 ai vs Hai) as [x Hx].
    rewrite Z.sub_0_r in Hx. rewrite Hx. by eexists _, _, _.
  - assert (Hk : call_kwargs o fname !! "atoms" = Some (py_atoms_arg o)) by reflexivity.
    rewrite Hk. destruct o; by eexists _, _, _.
Qed.

(** The decorator on a first run whose lookup misses calls [func], saves
    its result and returns it, closing the region at the same path; [func]
    may itself make checkpointed calls, which leave the path one level
    deeper and write rows of their own, as long as it returns in a state
    from which the decorator's [Exit] gets back to the path. A later run
    whose [Enter] lands on that path (a restarted run) returns the stored
    values without calling the function ([func'] is arbitrary): a tuple's
    elements in order, a single value alone (so a 1-tuple comes back as
    its element), the payload as its persisted copy with the calculator of
    the first atoms argument. *)
Theorem decorated_round_trip (fname : string)
    (func func' : list value -> gmap string value -> M retval)
    (args : list value) (kwargs : gmap string value) (st st' st_f : state)
    (p : list Z) (c k : Z) (d d_f : store) (rv : retval) (a : value)
    (data : gmap string value) (pos : list Z) :
  1 <= c -> increase_checkpoint_id st = (mkState (p ++ [c]) true d, Ok tt) ->
  mangle (p ++ [c]) = Some k -> rows_at k d = [] ->
  func args kwargs (mkState (p ++ [c]) true d) = (st_f, Ok rv) ->
  decrease_checkpoint_id st_f = (mkState (p ++ [c]) false d_f, Ok tt) ->
  db_writable d_f = true -> (length (rows_at k d_f) <= 1)%nat ->
  flush_data (retvals_list rv) (call_kwargs (first_atoms args) fname) = Ok (a, data) ->
  written_positions a = Some pos ->
  increase_checkpoint_id st' = (mkState (p ++ [c]) true (flush_store k pos data d_f), Ok tt) ->
  decorated_func fname func args kwargs st
    = (mkState (p ++ [c]) false (flush_store k pos data d_f), Ok rv) /\
  decorated_func fname func' args kwargs st'
    = (mkState (p ++ [c]) false (flush_store k pos data d_f),
       Ok (as_ret (restored (first_atoms args) pos (retvals_list rv)))).
Proof.
  intros Hc Hinc Hk Hr Hfunc Hdec Hw Hlen Hfd Hpos Hinc'. split.
  - unfold decorated_func, catch.
    rewrite (load_miss _ st (mkState (p ++ [c]) true d) k Hinc Hk Hr).
    rewrite decide_True by done.
    rewrite (bind_ok _ _ _ _ _ Hfunc).
    assert (Hsave : save (retvals_list rv) (call_kwargs (first_atoms args) fname) st_f
                    = (mkState (p ++ [c]) false (flush_store k pos data d_f), Ok tt)).
    { unfold save. rewrite (bind_ok _ _ _ _ _ Hdec).
      by rewrite (_flush_spec _ _ _ a data k pos). }
    destruct rv; cbn in Hsave; rewrite (bind_ok _ _ _ _ _ Hsave); reflexivity.
  - set (r := mkRow (db_next_id d_f) k pos data).
    destruct (flush_data_decode _ _ a r (first_atoms args)
      (call_kwargs_value_key (first_atoms args) fname)
      (call_kwargs_index (first_atoms args) fname) Hfd) as [Hai Hloop].
    unfold decorated_func, catch.
    erewrite (load_hit _ st' _ _ k r); [|exact Hinc'|done| |exact Hai|].
    + by rewrite Hloop.
    + cbn [db]. by apply rows_at_flush_store_same.
    + by apply decrease_open.
Qed.

(** [load] never modifies the database, whatever its outcome. *)
Theorem load_read_only (ctx : option atoms) (st : state) :
  db (fst (load ctx st)) = db st.
Proof.
  unfold load. destruct (increase_checkpoint_id st) as [st1 o] eqn:Hinc.
  pose proof (increase_db _ _ _ Hinc) as Hdb1.
  destruct o as [[]|e]; [|by rewrite (bind_raise _ _ _ _ _ Hinc)].
  rewrite (bind_ok _ _ _ _ _ Hinc).
  unfold mangled_checkpoint_id, catch, db_get, bind at 1 2 3 4, get, ret, raise.
  cbn - [decrease_checkpoint_id load_loop].
  destruct (mangle (checkpoint_id st1)) as [k|]; cbn - [decrease_checkpoint_id load_loop];
    [|done].
  destruct (rows_at k (db st1)) as [|r [|r2 rs]]; cbn - [decrease_checkpoint_id load_loop];
    try done.
  destruct (row_data r !! atoms_index_key) as [ai|]; cbn - [decrease_checkpoint_id]; [|done].
  unfold bind. destruct (decrease_checkpoint_id st1) as [st2 o2] eqn:Hdec.
  pose proof (decrease_db _ _ _ Hdec) as Hdb2.
  destruct o2; [repeat case_match|]; cbn; congruence.
Qed.

(** A successful [flush] or [save] keeps the database as [_flush] builds
    it: row ids distinct and below the next id, at most one row per linear
    id. *)
Theorem write_keeps_store_ok (args : list value) (kw : gmap string value) (st st' : state) :
  store_ok (db st) ->
  flush args kw st = (st', Ok tt) \/ save args kw st = (st', Ok tt) ->
  store_ok (db st').
Proof.
  intros Hok [Hrun|Hrun].
  - unfold flush, bind, modify in Hrun. cbn -[_flush] in Hrun.
    destruct (_flush_ok_inv _ _ _ _ Hrun) as (a & data & k & pos & _ & _ & _ & _ & _ & ->).
    by apply store_ok_flush_store.
  - unfold save in Hrun. destruct (decrease_checkpoint_id st) as [st1 o] eqn:Hdec.
    pose proof (decrease_db _ _ _ Hdec) as Hdb.
    destruct o as [[]|e]; [|by rewrite (bind_raise _ _ _ _ _ Hdec) in Hrun].
    rewrite (bind_ok _ _ _ _ _ Hdec) in Hrun.
    destruct (_flush_ok_inv _ _ _ _ Hrun) as (a & data & k & pos & _ & _ & _ & _ & _ & ->).
    cbn. apply store_ok_flush_store. by rewrite Hdb.
Qed.

(** With two or more rows at the looked-up linear id, [load] fails with
    [db.get]'s assertion (not [NoCheckpoint]) after its [Enter]. *)
Theorem load_duplicate_rows (ctx : option atoms) (st st1 : state) (k : Z) :
  increase_checkpoint_id st = (st1, Ok tt) ->
  mangle (checkpoint_id st1) = Some k -> (2 <= length (rows_at k (db st1)))%nat ->
  load ctx st = (st1, Raise AssertionError).
Proof.
  intros Hinc Hk Hlen. unfold load. rewrite (bind_ok _ _ _ _ _ Hinc).
  unfold mangled_checkpoint_id, catch, db_get, bind, get, ret, raise. cbn.
  rewrite Hk. cbn.
  destruct (rows_at k (db st1)) as [|r [|r2 rs]]; cbn in Hlen; [lia|lia|]. reflexivity.
Qed.

(** With two or more rows at the linear id, [flush] fails with [db.get]'s
    assertion before deleting or writing anything. *)
Theorem flush_duplicate_rows (args : list value) (kw : gmap string value) (st : state)
    (a : value) (data : gmap string value) (k : Z) :
  flush_data args kw = Ok (a, data) -> mangle (checkpoint_id st) = Some k ->
  (2 <= length (rows_at k (db st)))%nat ->
  flush args kw st = (set_in_region false st, Raise AssertionError).
Proof.
  intros Hfd Hk Hlen. unfold flush, bind at 1, modify. cbn -[_flush].
  unfold _flush. rewrite Hfd.
  unfold mangled_checkpoint_id, catch, db_get, bind, get, ret, raise. cbn.
  rewrite Hk. cbn.
  destruct (rows_at k (db st)) as [|r [|r2 rs]]; cbn in Hlen; [lia|lia|].
  rewrite decide_False by discriminate. reflexivity.
Qed.

(** Inside an open region at [p ++ [c]], [n] completed inner calls
    ([1 <= n < max_id]) leave the path at [p ++ [c; n]] with the region
    closed, and the outer [Exit] then pops back to [p ++ [c]]. *)
Theorem inner_calls_return (p : list Z) (c : Z) (d : store) (n : nat) :
  1 <= c -> (1 <= n < 1000)%nat ->
  inner_calls n (mkState (p ++ [c]) true d)
    = (mkState (p ++ [c; Z.of_nat n]) false d, Ok tt) /\
  (inner_calls n;;; decrease_checkpoint_id) (mkState (p ++ [c]) true d)
    = (mkState (p ++ [c]) false d, Ok tt).
Proof.
  intros Hc Hn. destruct n as [|n]; [lia|].
  pose proof (inner_calls_ok p c d n Hc ltac:(lia)) as H.
  rewrite <- app_assoc in H. cbn in H. split; [exact H|].
  rewrite (bind_ok _ _ _ _ _ H). by apply decrease_closed.
Qed.

(** An [Exit] with no matching [Enter] at the top level (path [[c]],
    region closed; e.g. [save] on a fresh tracker) empties the path and
    fails its assertion before any write; from then on [flush] fails with
    the encoding error or, past it, TypeError (no linear id for an empty
    path) without touching the database, and [load] fails with IndexError. *)
Theorem unbalanced_exit (c : Z) (d : store) (b : bool) (args : list value)
    (kw : gmap string value) (ctx : option atoms) :
  decrease_checkpoint_id (mkState [c] false d) = (mkState [] false d, Raise AssertionError) /\
  save args kw (mkState [c] false d) = (mkState [] false d, Raise AssertionError) /\
  flush args kw (mkState [] b d)
    = (mkState [] false d,
       Raise (match flush_data args kw with Raise e => e | Ok _ => TypeError end)) /\
  load ctx (mkState [] false d) = (mkState [] false d, Raise IndexError).
Proof.
  split; [reflexivity|]. split; [reflexivity|]. split; [|reflexivity].
  unfold flush, bind at 1, modify. cbn -[_flush]. unfold _flush.
  destruct (flush_data args kw) as [[a data]|e]; reflexivity.
Qed.

(** After a successful [load] (the iterative pattern of the module's
    documentation), the region is closed at the loaded path, and [flush]
    writes back to the linear id that was read, replacing that record. *)
Theorem load_then_flush_same_key (ctx : option atoms) (st : state) (p : list Z) (c k : Z)
    (d : store) (r : row) (ai : value) (args : list value) (kw : gmap string value)
    (a : value) (data : gmap string value) (pos : list Z) :
  1 <= c -> increase_checkpoint_id st = (mkState (p ++ [c]) true d, Ok tt) ->
  mangle (p ++ [c]) = Some k -> rows_at k d = [r] ->
  row_data r !! atoms_index_key = Some ai ->
  flush_data args kw = Ok (a, data) -> written_positions a = Some pos ->
  db_writable d = true ->
  (exists v, load ctx st = (mkState (p ++ [c]) false d, Ok v)) /\
  flush args kw (mkState (p ++ [c]) false d)
    = (mkState (p ++ [c]) false (flush_store k pos data d), Ok tt) /\
  rows_at k (flush_store k pos data d) = [mkRow (db_next_id d) k pos data].
Proof.
  intros Hc Hinc Hk Hr Hai Hfd Hpos Hw. split; [|split].
  - eexists. eapply load_hit; [exact Hinc|done|done|exact Hai|]. by apply decrease_open.
  - unfold flush, bind, modify. cbn -[_flush].
    rewrite (_flush_spec _ _ _ a data k pos); try done. cbn. rewrite Hr. cbn. lia.
  - apply rows_at_flush_store_same. rewrite Hr. cbn. lia.
Qed.

(** Instance: [f] calls the decorated [g] once and returns the 1-tuple
    [(42,)] for the sample configuration; the replay, with a function that
    would fail, returns [42] alone. *)
Lemma decorated_round_trip_witness :
  decorated_func "f" sample_outer_func [VAtoms sample_atoms] ∅ (init sample_store)
    = (mkState [1] false sample_nested_store, Ok (RTuple [VInt 42])) /\
  decorated_func "f" (fun _ _ => raise StoreError) [VAtoms sample_atoms] ∅
      (init sample_nested_store)
    = (mkState [1] false sample_nested_store, Ok (RSingle (VInt 42))).
Proof.
  refine (decorated_round_trip "f" sample_outer_func
    (fun _ _ => raise StoreError) [VAtoms sample_atoms] ∅ (init sample_store)
    (init sample_nested_store) (mkState [1; 1] false sample_inner_store) [] 1 1
    sample_store sample_inner_store (RTuple [VInt 42])
    (VAtoms sample_atoms) (flushed_data [VInt 42] (call_kwargs (Some sample_atoms) "f"))
    [7] _ _ _ _ _ _ _ _ _ _ _); witness_side.
Defined.

(** Instance: the sample values saved into an empty database. *)
Lemma write_keeps_store_ok_witness : store_ok sample_saved.
Proof.
  refine (write_keeps_store_ok sample_args ∅ (mkState [1] true sample_store)
    (mkState [1] false sample_saved) _ _).
  - split; [constructor|split].
    + intros r1 r2 H. by apply elem_of_nil in H.
    + intros k. cbn. lia.
  - right. vm_compute. reflexivity.
Defined.

(** Instance: two rows at linear id 1. *)
Lemma load_duplicate_rows_witness :
  load None (init sample_dup_store) = (mkState [1] true sample_dup_store, Raise AssertionError).
Proof.
  refine (load_duplicate_rows None (init sample_dup_store) (mkState [1] true sample_dup_store)
    1 _ _ _); witness_side.
Defined.

Lemma flush_duplicate_rows_witness :
  flush sample_args ∅ (mkState [1] true sample_dup_store)
  = (mkState [1] false sample_dup_store, Raise AssertionError).
Proof.
  refine (flush_duplicate_rows sample_args ∅ (mkState [1] true sample_dup_store)
    (VAtoms sample_atoms) (flushed_data sample_args ∅) 1 _ _ _); witness_side.
Defined.

(** Instance: three inner calls in the region [[1]]. *)
Lemma inner_calls_return_witness :
  inner_calls 3 (mkState [1] true sample_store) = (mkState [1; 3] false sample_store, Ok tt) /\
  (inner_calls 3;;; decrease_checkpoint_id) (mkState [1] true sample_store)
    = (mkState [1] false sample_store, Ok tt).
Proof. refine (inner_calls_return [] 1 sample_store 3 _ _); witness_side. Defined.

(** Instance: the sample record read back by a replayed run, then
    [flush(6, atoms)] at the same linear id. *)
Lemma load_then_flush_same_key_witness :
  flush [VInt 6; VAtoms sample_atoms] ∅ (mkState [1] false sample_saved)
    = (mkState [1] false
         (flush_store 1 [7] (flushed_data [VInt 6; VAtoms sample_atoms] ∅) sample_saved),
       Ok tt) /\
  rows_at 1 (flush_store 1 [7] (flushed_data [VInt 6; VAtoms sample_atoms] ∅) sample_saved)
    = [mkRow 1 1 [7] (flushed_data [VInt 6; VAtoms sample_atoms] ∅)].
Proof.
  refine (proj2 (load_then_flush_same_key (Some sample_ctx) (init sample_saved) [] 1 1
    sample_saved (mkRow 0 1 [7] (flushed_data sample_args ∅)) (VInt 1)
    [VInt 6; VAtoms sample_atoms] ∅ (VAtoms sample_atoms)
    (flushed_data [VInt 6; VAtoms sample_atoms] ∅) [7] _ _ _ _ _ _ _ _)); witness_side.
Defined.

(** When the decorated function raises after a missed lookup, the
    exception propagates unchanged and the decorator adds no step of its
    own: nothing is saved and no [Exit] runs, so the state is exactly the
    one the function left, whatever checkpointed calls it made before
    failing. *)
Theorem decorated_func_raises (fname : string)
    (func : list value -> gmap string value -> M retval) (args : list value)
    (kwargs : gmap string value) (st st_f : state) (p : list Z) (k : Z) (d : store)
    (e : exn) :
  increase_checkpoint_id st = (mkState p true d, Ok tt) ->
  mangle p = Some k -> rows_at k d = [] ->
  func args kwargs (mkState p true d) = (st_f, Raise e) ->
  decorated_func fname func args kwargs st = (st_f, Raise e).
Proof.
  intros Hinc Hk Hr Hfunc.
  unfold decorated_func, catch.
  rewrite (load_miss _ st (mkState p true d) k Hinc Hk Hr).
  rewrite decide_True by done.
  by rewrite (bind_raise _ _ _ _ _ Hfunc).
Qed.

(** Instance: a function that enters a nested region and then fails with
    a store error, on the first call; the nested region stays open. *)
Lemma decorated_func_raises_witness :
  decorated_func "f" (fun _ _ => increase_checkpoint_id;;; raise StoreError) [VInt 1] ∅
      (init sample_store)
    = (mkState [1; 1] true sample_store, Raise StoreError).
Proof.
  refine (decorated_func_raises "f" (fun _ _ => increase_checkpoint_id;;; raise StoreError)
    [VInt 1] ∅ (init sample_store) (mkState [1; 1] true sample_store) [1] 1 sample_store
    StoreError _ _ _ _); witness_side.
Defined.

End Checkpoint.
